(** * tool-rate-limiter: the token-bucket engine of [src/limiter.py] and the
    [check] command of [src/cli.py].

    Numbers.  Python's [int] and [float] values (capacity, refill rate,
    token counts, epoch seconds) are modelled by exact rationals [Q]: the
    engine only adds, subtracts, multiplies, compares and takes a minimum.
    The clock reading [time.time()] of a call is the argument [now].

    Dictionaries are [gmap]s with [string] keys.  The engine object keeps two
    in-memory dictionaries ([config], [state]) and owns two documents on disk;
    the fields [config_file] and [state_file] hold the content of the
    documents at those paths ([None]: the file does not exist). *)

From Stdlib Require Import Ascii String QArith Lqa.
From stdpp Require Import base option strings gmap fin_maps.

Local Open Scope string_scope.

(** ** Data model *)

(** [class Bucket] / the JSON object [{"tokens": .., "last_refill": ..}]. *)
Record Bucket : Type := mkBucket { tokens : Q; last_refill : Q }.

(** A value of the policy document.  [json.load] gives [None] for [null]
    and a [dict] for an object; the fields of an object are numbers. *)
Inductive Policy : Type :=
| PNull
| PObj (fields : gmap string Q).

(** The object [set_limit] stores. *)
Definition policy_of (capacity refill_rate : Q) : Policy :=
  PObj (<["refill_rate" := refill_rate]> (<["capacity" := capacity]> ∅)).

Record RateLimiter : Type := mkLimiter {
  config : gmap string Policy;
  state : gmap string Bucket;
  config_file : option (gmap string Policy);
  state_file : option (gmap string Bucket)
}.

(** Exceptions the engine can raise. *)
Inductive exn : Type :=
| RateLimitExceeded
| KeyError
| TypeError
| ValueError.

Inductive result (A : Type) : Type :=
| Ok (a : A)
| Raise (e : exn).
Arguments Ok {A} a.
Arguments Raise {A} e.

(** ** A state-and-exception monad for the methods of [RateLimiter]

    A method runs on the object [self]; it returns a value or raises, and
    the object keeps whatever was mutated before an exception. *)
Definition M (A : Type) : Type := RateLimiter → result A * RateLimiter.

Definition ret {A} (a : A) : M A := λ self, (Ok a, self).
Definition raise {A} (e : exn) : M A := λ self, (Raise e, self).
Definition bind {A B} (m : M A) (f : A → M B) : M B :=
  λ self, match m self with
          | (Ok a, self') => f a self'
          | (Raise e, self') => (Raise e, self')
          end.
Definition get_self : M RateLimiter := λ self, (Ok self, self).
Definition set_config (c : gmap string Policy) : M unit :=
  λ self, (Ok tt, mkLimiter c (state self) (config_file self) (state_file self)).
Definition set_state (s : gmap string Bucket) : M unit :=
  λ self, (Ok tt, mkLimiter (config self) s (config_file self) (state_file self)).
Definition lift {A} (r : result A) : M A := λ self, (r, self).

#[global] Instance M_ret : MRet M := @ret.
#[global] Instance M_bind : MBind M := λ A B f m, bind m f.

(** ** Python primitives *)

(** Truthiness of [self.config.get(tool)]: [None] (absent key or [null])
    and the empty dict are falsy. *)
Definition truthy (v : option Policy) : bool :=
  match v with
  | None => false
  | Some PNull => false
  | Some (PObj fields) => negb (size fields =? 0)%nat
  end.

(** [tool_config[name]] on a truthy value. *)
Definition getitem (v : option Policy) (name : string) : result Q :=
  match v with
  | Some (PObj fields) =>
      match fields !! name with
      | Some x => Ok x
      | None => Raise KeyError
      end
  | _ => Raise TypeError
  end.

(** [a >= b] and [a < b] on numbers. *)
Definition Qgeb (a b : Q) : bool := Qle_bool b a.
Definition Qltb (a b : Q) : bool := negb (Qle_bool b a).

(** [min(a, b)]: the first argument unless the second is strictly smaller. *)
Definition py_min (a b : Q) : Q := if Qltb b a then b else a.

(** [key.split(":", 1)] unpacked into two names: the part before the first
    colon and the rest; a key without a colon raises [ValueError]. *)
Fixpoint split_colon (key : string) : option (string * string) :=
  match key with
  | EmptyString => None
  | String c rest =>
      if Ascii.eqb c ":"%char then Some (EmptyString, rest)
      else match split_colon rest with
           | Some (t, u) => Some (String c t, u)
           | None => None
           end
  end.

(** ** [RateLimiter] *)

Definition _load_config (doc : option (gmap string Policy)) : gmap string Policy :=
  match doc with Some d => d | None => ∅ end.

Definition _load_state (doc : option (gmap string Bucket)) : gmap string Bucket :=
  match doc with Some d => d | None => ∅ end.

(** [RateLimiter(config_file, state_file)] *)
Definition init (cdoc : option (gmap string Policy))
    (sdoc : option (gmap string Bucket)) : RateLimiter :=
  mkLimiter (_load_config cdoc) (_load_state sdoc) cdoc sdoc.

Definition _save_config : M unit :=
  λ self, (Ok tt, mkLimiter (config self) (state self)
                            (Some (config self)) (state_file self)).

Definition _save_state : M unit :=
  λ self, (Ok tt, mkLimiter (config self) (state self)
                            (config_file self) (Some (state self))).

Definition _get_bucket_key (tool user : string) : string :=
  tool +:+ ":" +:+ user.

Definition _refill_bucket (tool user : string) (now : Q) : M unit :=
  let bucket_key := _get_bucket_key tool user in
  self ← get_self;
  let tool_config := config self !! tool in
  if negb (truthy tool_config) then ret tt
  else
    capacity ← lift (getitem tool_config "capacity");
    refill_rate ← lift (getitem tool_config "refill_rate");
    match state self !! bucket_key with
    | None => set_state (<[bucket_key := mkBucket capacity now]> (state self))
    | Some bucket =>
        let elapsed := (now - last_refill bucket)%Q in
        let new_tokens := (tokens bucket + elapsed * refill_rate)%Q in
        set_state (<[bucket_key := mkBucket (py_min new_tokens capacity) now]>
                     (state self))
    end.

Definition check (tool user : string) (now : Q) : M bool :=
  self ← get_self;
  match config self !! tool with
  | None => raise RateLimitExceeded
  | Some _ =>
      _refill_bucket tool user now;;
      let bucket_key := _get_bucket_key tool user in
      self ← get_self;
      match state self !! bucket_key with
      | None => raise KeyError
      | Some bucket =>
          if Qgeb (tokens bucket) 1 then
            set_state (<[bucket_key := mkBucket (tokens bucket - 1)%Q
                                                (last_refill bucket)]>
                         (state self));;
            _save_state;;
            ret true
          else ret false
      end
  end.

Definition set_limit (tool : string) (capacity refill_rate : Q) : M unit :=
  self ← get_self;
  set_config (<[tool := policy_of capacity refill_rate]> (config self));;
  _save_config.

Definition reset : M unit :=
  set_state ∅;; _save_state.

(** The names the specification uses for the outcomes of [check]. *)
Definition Allowed : result bool := Ok true.
Definition Denied : result bool := Ok false.
Definition UnknownTool : result bool := Raise RateLimitExceeded.

(** ** [cmd_check] of the command line

    The handler turns the decision into an exit code and catches
    [RateLimitExceeded] only; any other exception propagates. *)
Definition cmd_check (tool user : string) (now : Q) : M Z :=
  λ limiter,
    match check tool user now limiter with
    | (Ok true, limiter') => (Ok 0%Z, limiter')
    | (Ok false, limiter') => (Ok 1%Z, limiter')
    | (Raise RateLimitExceeded, limiter') => (Ok 2%Z, limiter')
    | (Raise e, limiter') => (Raise e, limiter')
    end.

(** ** [status] *)

#[global] Instance result_ret : MRet result := @Ok.
#[global] Instance result_bind : MBind result :=
  λ A B f r, match r with Ok a => f a | Raise e => Raise e end.

(** One entry of the report: [{"capacity": .., "refill_rate": .., "users": {..}}]. *)
Record ToolStatus : Type := mkStatus {
  capacity : Q;
  refill_rate : Q;
  users : gmap string Q
}.

(** The first loop, over [self.config.items()]. *)
Definition status_tools (cfg : gmap string Policy) : result (gmap string ToolStatus) :=
  map_fold (λ tool tool_config acc,
              result ← acc;
              c ← getitem (Some tool_config) "capacity";
              r ← getitem (Some tool_config) "refill_rate";
              Ok (<[tool := mkStatus c r ∅]> result))
           (Ok ∅) cfg.

(** The second loop, over [self.state.items()]. *)
Definition status_users (st : gmap string Bucket)
    (result0 : gmap string ToolStatus) : result (gmap string ToolStatus) :=
  map_fold (λ bucket_key bucket_data acc,
              result ← acc;
              match split_colon bucket_key with
              | None => Raise ValueError
              | Some (tool, user) =>
                  match result !! tool with
                  | Some entry =>
                      Ok (<[tool := mkStatus (capacity entry) (refill_rate entry)
                                      (<[user := tokens bucket_data]> (users entry))]>
                            result)
                  | None => Ok result
                  end
              end)
           (Ok result0) st.

Definition status : M (gmap string ToolStatus) :=
  self ← get_self;
  lift (result0 ← status_tools (config self); status_users (state self) result0).

(** ** Runs on concrete documents *)

(** The policy document with the single tool ["tool1"]. *)
Definition cfg_tool1 (c r : Q) : gmap string Policy := {[ "tool1" := policy_of c r ]}.

(** The result of a run and the bucket it leaves for a key. *)
Definition outcome {A} (r : result A * RateLimiter) : result A := fst r.
Definition after {A} (r : result A * RateLimiter) : RateLimiter := snd r.

(** A bucket whose [last_refill] lies ahead of the clock reading 7. *)
Definition regressed : RateLimiter :=
  init (Some (cfg_tool1 5 1)) (Some {[ "tool1:user1" := mkBucket 2 10 ]}).

(** One admitted request under capacity 5, then the capacity is lowered to 2. *)
Definition lowered : RateLimiter :=
  after (set_limit "tool1" 2 1
    (after (check "tool1" "user1" 100 (init (Some (cfg_tool1 5 1)) None)))).

(** An empty bucket under a refill rate of half a token per second. *)
Definition starved : RateLimiter :=
  init (Some (cfg_tool1 5 (1#2))) (Some {[ "tool1:user1" := mkBucket 0 0 ]}).

(** A policy of capacity 0, as [set_limit("tool1", 0, 1)] stores it. *)
Definition zero_capacity : RateLimiter :=
  after (set_limit "tool1" 0 1 (init None None)).

(** A policy document edited to [{"tool1": null}] next to a state document
    that still holds a bucket of that tool. *)
Definition nulled : RateLimiter :=
  init (Some {[ "tool1" := PNull ]}) (Some {[ "tool1:user1" := mkBucket 3 0 ]}).

(** Two tools whose names overlap across the colon. *)
Definition overlapping : RateLimiter :=
  init (Some (<["a" := policy_of 1 0]> {[ "a:b" := policy_of 1 0 ]})) None.

(** ** Well-formed policies *)

(** The policy of [tool] is an object with both fields. *)
Definition policy_at (cfg : gmap string Policy) (tool : string) (c r : Q) : Prop :=
  ∃ fields, cfg !! tool = Some (PObj fields)
            ∧ fields !! "capacity" = Some c
            ∧ fields !! "refill_rate" = Some r.

(** A policy that is [null] or [{}]. *)
Definition falsy_policy (p : Policy) : Prop := truthy (Some p) = false.

(** The bucket [_refill_bucket] leaves under a policy [(c, r)]: a fresh full
    one when there was none, the old one topped up otherwise. *)
Definition refilled (c r now : Q) (old : option Bucket) : Bucket :=
  match old with
  | None => mkBucket c now
  | Some bucket =>
      mkBucket (py_min (tokens bucket + (now - last_refill bucket) * r) c) now
  end.

(** [self] with another bucket mapping, and with that mapping written out. *)
Definition with_state (self : RateLimiter) (s : gmap string Bucket) : RateLimiter :=
  mkLimiter (config self) s (config_file self) (state_file self).
Definition with_saved_state (self : RateLimiter) (s : gmap string Bucket) : RateLimiter :=
  mkLimiter (config self) s (config_file self) (Some s).

(** ** Reading keys back *)

(** The name holds no colon. *)
Fixpoint no_colon (s : string) : bool :=
  match s with
  | EmptyString => true
  | String c rest => negb (Ascii.eqb c ":"%char) && no_colon rest
  end.

(** The entry the first loop of [status] makes for a policy. *)
Definition entry_of (p : Policy) : option ToolStatus :=
  match getitem (Some p) "capacity", getitem (Some p) "refill_rate" with
  | Ok c, Ok r => Some (mkStatus c r ∅)
  | _, _ => None
  end.

(** The bucket whose key [status] reads back as [(tool, user)]. *)
Definition attributed (st : gmap string Bucket) (tool user : string) : option Bucket :=
  if no_colon tool then st !! _get_bucket_key tool user else None.

(** Every policy is an object with both fields; every bucket key has a colon. *)
Definition policies_ok (cfg : gmap string Policy) : Prop :=
  ∀ tool p, cfg !! tool = Some p → ∃ c r, policy_at cfg tool c r.
Definition keys_ok (st : gmap string Bucket) : Prop :=
  ∀ k b, st !! k = Some b → is_Some (split_colon k).

(** ** The other command handlers and [main]

    What the handlers print is not modelled; [set-limit] parses its capacity
    with [type=int]. *)
Definition cmd_set_limit (tool : string) (capacity : Z) (refill_rate : Q) : M Z :=
  set_limit tool (inject_Z capacity) refill_rate;; ret 0%Z.

Definition cmd_status : M Z := status;; ret 0%Z.

Definition cmd_reset : M Z := reset;; ret 0%Z.

(** The namespace [parse_args] returns: no sub-command, or one of the four
    with its arguments. *)
Inductive Args : Type :=
| NoCommand
| CheckArgs (tool user : string)
| SetLimitArgs (tool : string) (capacity : Z) (refill_rate : Q)
| StatusArgs
| ResetArgs.

(** The two documents at the paths [main] takes from the environment. *)
Record Disk : Type := mkDisk {
  config_doc : option (gmap string Policy);
  state_doc : option (gmap string Bucket)
}.

(** [main]: without a sub-command the help is printed and 0 returned;
    otherwise an engine is loaded from the documents and the handler of the
    sub-command runs on it.  The result is the exit code (or the exception
    that escapes) and the documents the process leaves behind. *)
Definition main (args : Args) (now : Q) (disk : Disk) : result Z * Disk :=
  match args with
  | NoCommand => (Ok 0%Z, disk)
  | _ =>
      let limiter := init (config_doc disk) (state_doc disk) in
      let run :=
        match args with
        | CheckArgs tool user => cmd_check tool user now limiter
        | SetLimitArgs tool capacity refill_rate =>
            cmd_set_limit tool capacity refill_rate limiter
        | StatusArgs => cmd_status limiter
        | _ => cmd_reset limiter
        end in
      (fst run, mkDisk (config_file (snd run)) (state_file (snd run)))
  end.






(** Documents as the engine itself writes them. *)
Definition wf_engine (self : RateLimiter) : Prop :=
  policies_ok (config self) ∧ keys_ok (state self).

(** A non-empty policy object without one of the two fields. *)
Definition malformed_policy (p : Policy) : Prop :=
  ∃ fields, p = PObj fields ∧ fields ≠ ∅
            ∧ (fields !! "capacity" = None ∨ fields !! "refill_rate" = None).

Ltac run_limiter :=
  unfold check, _refill_bucket, set_limit, reset, mbind, M_bind, bind, get_self,
    lift, raise, ret, set_state, set_config, _save_state, _save_config,
    outcome, after; simpl.

(** ** Arithmetic of the primitives *)

Local Open Scope Q_scope.

Section Arith.

Lemma Qgeb_true (a b : Q) : Qgeb a b = true ↔ b <= a.
Proof. unfold Qgeb. apply Qle_bool_iff. Qed.

Lemma Qgeb_false (a b : Q) : Qgeb a b = false ↔ a < b.
Proof.
  unfold Qgeb. split.
  - intros H. apply Qnot_le_lt. intros Hle.
    apply Qle_bool_iff in Hle. congruence.
  - intros H. destruct (Qle_bool b a) eqn:E; [|done].
    apply Qle_bool_iff in E. exfalso. eapply Qlt_not_le; eauto.
Qed.

Lemma py_min_cases (a b : Q) :
  (b < a ∧ py_min a b = b) ∨ (a <= b ∧ py_min a b = a).
Proof.
  unfold py_min, Qltb. destruct (Qle_bool a b) eqn:E; simpl.
  - right. split; [by apply Qle_bool_iff|done].
  - left. split; [|done]. by apply (Qgeb_false b a).
Qed.

Lemma py_min_le_r (a b : Q) : py_min a b <= b.
Proof. destruct (py_min_cases a b) as [[? ->]|[? ->]]; lra. Qed.

Lemma py_min_le_l (a b : Q) : py_min a b <= a.
Proof. destruct (py_min_cases a b) as [[? ->]|[? ->]]; lra. Qed.

Lemma py_min_glb (a b x : Q) : x <= a → x <= b → x <= py_min a b.
Proof. intros. destruct (py_min_cases a b) as [[? ->]|[? ->]]; lra. Qed.
End Arith.

(** ** Step equations of the methods *)

Lemma policy_truthy (fields : gmap string Q) (c : Q) :
  fields !! "capacity" = Some c → truthy (Some (PObj fields)) = true.
Proof.
  intros H. simpl. destruct (size fields) eqn:E; [|done].
  apply map_size_empty_iff in E. subst. by rewrite lookup_empty in H.
Qed.

Lemma policy_at_set (cfg : gmap string Policy) (tool : string) (c r : Q) :
  policy_at (<[tool := policy_of c r]> cfg) tool c r.
Proof.
  exists (<["refill_rate" := r]> (<["capacity" := c]> ∅)).
  rewrite lookup_insert_eq. split; [done|]. split.
  - by rewrite lookup_insert_ne, lookup_insert_eq.
  - by rewrite lookup_insert_eq.
Qed.

Section Steps.
Variables (self : RateLimiter) (tool user : string) (now : Q).
Let key := _get_bucket_key tool user.

Lemma refill_falsy (p : Policy) :
  config self !! tool = Some p → falsy_policy p →
  _refill_bucket tool user now self = (Ok tt, self).
Proof.
  intros Hc Hf. unfold _refill_bucket, mbind, M_bind, bind, get_self. simpl.
  rewrite Hc. unfold falsy_policy in Hf. by rewrite Hf.
Qed.

Lemma refill_fresh (c r : Q) :
  policy_at (config self) tool c r → state self !! key = None →
  _refill_bucket tool user now self
  = (Ok tt, mkLimiter (config self) (<[key := mkBucket c now]> (state self))
                      (config_file self) (state_file self)).
Proof.
  intros (f & Hc & Hcap & Hrate) Hs.
  unfold _refill_bucket, mbind, M_bind, bind, get_self, lift. simpl.
  rewrite Hc, (policy_truthy f c Hcap). simpl. rewrite Hcap, Hrate.
  fold key. by rewrite Hs.
Qed.

Lemma refill_existing (c r : Q) (bucket : Bucket) :
  policy_at (config self) tool c r → state self !! key = Some bucket →
  _refill_bucket tool user now self
  = (Ok tt,
     mkLimiter (config self)
       (<[key := mkBucket
                   (py_min (tokens bucket + (now - last_refill bucket) * r) c)
                   now]> (state self))
       (config_file self) (state_file self)).
Proof.
  intros (f & Hc & Hcap & Hrate) Hs.
  unfold _refill_bucket, mbind, M_bind, bind, get_self, lift. simpl.
  rewrite Hc, (policy_truthy f c Hcap). simpl. rewrite Hcap, Hrate.
  fold key. by rewrite Hs.
Qed.
End Steps.

Lemma getitem_raises (v : option Policy) (name : string) (e : exn) :
  getitem v name = Raise e → e = KeyError ∨ e = TypeError.
Proof.
  unfold getitem. repeat case_match; intros; simplify_eq; auto.
Qed.

Section Check.
Variables (self : RateLimiter) (tool user : string) (now : Q).
Let key := _get_bucket_key tool user.

Lemma check_unknown :
  config self !! tool = None →
  check tool user now self = (Raise RateLimitExceeded, self).
Proof. intros H. run_limiter. by rewrite H. Qed.

Lemma check_policy (c r : Q) :
  policy_at (config self) tool c r →
  check tool user now self =
    let b := refilled c r now (state self !! key) in
    if Qgeb (tokens b) 1
    then (Ok true,
          with_saved_state self
            (<[key := mkBucket (tokens b - 1)%Q (last_refill b)]> (state self)))
    else (Ok false, with_state self (<[key := b]> (state self))).
Proof.
  intros Hp. pose proof Hp as (f & Hc & _).
  unfold check at 1. unfold mbind, M_bind, bind at 1, get_self. simpl.
  rewrite Hc. unfold bind at 1.
  destruct (state self !! key) as [bucket|] eqn:Hs.
  - rewrite (refill_existing self tool user now c r bucket Hp Hs).
    run_limiter. fold key. rewrite lookup_insert_eq. simpl.
    destruct (Qgeb _ 1); [|done].
    unfold with_saved_state. simpl. by rewrite insert_insert_eq.
  - rewrite (refill_fresh self tool user now c r Hp Hs).
    run_limiter. fold key. rewrite lookup_insert_eq. simpl.
    destruct (Qgeb c 1); [|done].
    unfold with_saved_state. simpl. by rewrite insert_insert_eq.
Qed.

Lemma check_falsy (p : Policy) :
  config self !! tool = Some p → falsy_policy p →
  check tool user now self =
    match state self !! key with
    | None => (Raise KeyError, self)
    | Some bucket =>
        if Qgeb (tokens bucket) 1
        then (Ok true,
              with_saved_state self
                (<[key := mkBucket (tokens bucket - 1)%Q (last_refill bucket)]>
                   (state self)))
        else (Ok false, self)
    end.
Proof.
  intros Hc Hf.
  unfold check at 1. unfold mbind, M_bind, bind at 1, get_self. simpl.
  rewrite Hc. unfold bind at 1.
  rewrite (refill_falsy self tool user now p Hc Hf).
  run_limiter. fold key. destruct (state self !! key) as [bucket|]; [|done].
  by destruct (Qgeb _ 1).
Qed.

(** Whatever the policy document holds, [check] raises
    [RateLimitExceeded] only for a tool that is not in it. *)
Lemma check_raises_unknown_iff :
  outcome (check tool user now self) = Raise RateLimitExceeded
  ↔ config self !! tool = None.
Proof.
  split.
  - run_limiter.
    repeat case_match; simplify_eq/=; try done;
      intros; simplify_eq;
      match goal with
      | H : getitem _ _ = Raise _ |- _ => by apply getitem_raises in H as [|]
      end.
  - intros H. by rewrite check_unknown.
Qed.

(** A check that answers [False] writes no document and changes no
    policy and no other bucket. *)
Lemma check_denied_frame :
  outcome (check tool user now self) = Ok false →
  state_file (after (check tool user now self)) = state_file self
  ∧ config (after (check tool user now self)) = config self
  ∧ config_file (after (check tool user now self)) = config_file self
  ∧ ∀ k, k ≠ key → state (after (check tool user now self)) !! k = state self !! k.
Proof.
  run_limiter. fold key.
  repeat case_match; simplify_eq/=; intros; simplify_eq/=;
    repeat split; try done; intros; by rewrite ?lookup_insert_ne.
Qed.
End Check.

(** ** Refill under a clock that went backwards *)

(** C1, as stated, fails: with capacity 5, one token per second, a bucket of
    2 tokens refilled at time 10 and a clock reading of 7, the refill step
    leaves fewer tokens than before (elapsed is -3 and is used as it is). *)
Lemma refill_regression_loses_tokens :
  ∃ bucket bucket',
    state regressed !! "tool1:user1" = Some bucket
    ∧ (7 < last_refill bucket)%Q
    ∧ state (after (_refill_bucket "tool1" "user1" 7 regressed)) !! "tool1:user1"
      = Some bucket'
    ∧ (tokens bucket' < tokens bucket)%Q
    ∧ (tokens bucket' < 0)%Q
    ∧ outcome (check "tool1" "user1" 7 regressed) = Denied.
Proof.
  exists (mkBucket 2 10), (mkBucket (py_min (2 + (7 - 10) * 1) 5) 7).
  repeat split; vm_compute; reflexivity.
Qed.

(** C1, amended: on an existing bucket read at a time earlier than its
    [last_refill], the refill step uses the negative elapsed time as it is:
    the bucket gets [min(tokens + elapsed * refill_rate, capacity)] tokens
    and [last_refill = now]; the token count is not lower than before exactly
    when the refill rate is not positive and the old count did not exceed the
    capacity. *)
Theorem refill_clock_regression
    (self : RateLimiter) (tool user : string) (now c r : Q) (bucket : Bucket) :
  policy_at (config self) tool c r →
  state self !! _get_bucket_key tool user = Some bucket →
  (now < last_refill bucket)%Q →
  ∃ bucket',
    _refill_bucket tool user now self
    = (Ok tt, with_state self (<[_get_bucket_key tool user := bucket']> (state self)))
    ∧ last_refill bucket' = now
    ∧ tokens bucket' = py_min (tokens bucket + (now - last_refill bucket) * r) c
    ∧ ((tokens bucket <= tokens bucket')%Q ↔ (r <= 0)%Q ∧ (tokens bucket <= c)%Q).
Proof.
  intros Hp Hs Hlt.
  eexists. split; [by apply refill_existing|]. simpl.
  split; [done|]. split; [done|].
  set (e := (now - last_refill bucket)%Q).
  assert (He : (e < 0)%Q) by (unfold e; lra).
  pose proof (py_min_le_l (tokens bucket + e * r) c) as Hl.
  pose proof (py_min_le_r (tokens bucket + e * r) c) as Hr.
  split.
  - intros Hle. split; [|lra].
    destruct (Qlt_le_dec 0 r) as [Hpos|]; [|done].
    assert (e * r < 0)%Q by nra. lra.
  - intros [Hr0 Hc]. apply py_min_glb; [|done].
    assert (0 <= e * r)%Q by nra. lra.
Qed.

Lemma refill_clock_regression_witness :
  ∃ bucket',
    _refill_bucket "tool1" "user1" 7 regressed
    = (Ok tt, with_state regressed (<[_get_bucket_key "tool1" "user1" := bucket']>
                                      (state regressed)))
    ∧ last_refill bucket' = 7
    ∧ tokens bucket' = py_min (tokens (mkBucket 2 10) + (7 - last_refill (mkBucket 2 10)) * 1) 5
    ∧ ((tokens (mkBucket 2 10) <= tokens bucket')%Q
       ↔ (1 <= 0)%Q ∧ (tokens (mkBucket 2 10) <= 5)%Q).
Proof.
  apply (refill_clock_regression regressed "tool1" "user1" 7 5 1 (mkBucket 2 10)).
  - apply policy_at_set.
  - reflexivity.
  - reflexivity.
Defined.


(** ** The clamping invariant *)

(** C2, as stated, fails: after one admitted request under capacity 5 the
    bucket holds 4 tokens; [set_limit] to capacity 2 leaves the bucket as it
    is, so after that operation the bucket holds more than the current
    capacity of its tool. *)
Lemma set_limit_breaks_clamping :
  policy_at (config lowered) "tool1" 2 1
  ∧ ∃ bucket, state lowered !! "tool1:user1" = Some bucket
              ∧ 2 < tokens bucket.
Proof.
  split; [apply policy_at_set|].
  exists (mkBucket (5 - 1) 100). split; vm_compute; reflexivity.
Qed.

(** C2, amended: after a [check] on a tool with policy [(c, r)] the checked
    bucket exists and holds at most [c] tokens; it holds at least 0 tokens
    when the check was allowed, and also when it was denied provided that
    [c >= 0], [r >= 0] and the bucket, if it existed, had non-negative tokens
    and a [last_refill] not later than the clock; no other bucket changes.
    [set_limit] changes no bucket (so a lowered capacity is exceeded until
    the next check of that bucket) and [reset] leaves no bucket. *)
Theorem check_bucket_bounds
    (self : RateLimiter) (tool user : string) (now c r : Q) :
  policy_at (config self) tool c r →
  (∃ (d : bool) (bucket' : Bucket),
     outcome (check tool user now self) = Ok d
     ∧ state (after (check tool user now self)) !! _get_bucket_key tool user
       = Some bucket'
     ∧ tokens bucket' <= c
     ∧ (d = true
        ∨ (0 <= c ∧ 0 <= r
           ∧ ∀ b, state self !! _get_bucket_key tool user = Some b →
                  0 <= tokens b ∧ last_refill b <= now)
        → 0 <= tokens bucket')
     ∧ ∀ k, k ≠ _get_bucket_key tool user →
            state (after (check tool user now self)) !! k = state self !! k)
  ∧ (∀ t c' r', state (after (set_limit t c' r' self)) = state self)
  ∧ state (after (reset self)) = ∅.
Proof.
  intros Hp. split; [|by split].
  rewrite (check_policy self tool user now c r Hp). simpl.
  set (key := _get_bucket_key tool user).
  assert (Hcap : tokens (refilled c r now (state self !! key)) <= c).
  { destruct (state self !! key); simpl; [apply py_min_le_r|lra]. }
  destruct (Qgeb (tokens (refilled c r now (state self !! key))) 1) eqn:E.
  - apply Qgeb_true in E.
    eexists true, _. unfold outcome, after; simpl.
    rewrite lookup_insert_eq. split; [done|]. split; [done|]. simpl.
    split; [lra|]. split; [intros _; lra|].
    intros k Hk. by rewrite lookup_insert_ne.
  - eexists false, _. unfold outcome, after; simpl.
    rewrite lookup_insert_eq. split; [done|]. split; [done|].
    split; [done|]. split.
    + intros [|(Hc & Hr & Hb)]; [done|].
      destruct (state self !! key) as [b|]; simpl; [|done].
      destruct (Hb b eq_refl) as [Ht Hl].
      apply py_min_glb; [|done].
      assert (0 <= (now - last_refill b) * r) by (apply Qmult_le_0_compat; lra).
      lra.
    + intros k Hk. by rewrite lookup_insert_ne.
Qed.

Lemma check_bucket_bounds_witness :
  ∃ (d : bool) (bucket' : Bucket),
    outcome (check "tool1" "user1" 7 regressed) = Ok d
    ∧ state (after (check "tool1" "user1" 7 regressed)) !! "tool1:user1"
      = Some bucket'
    ∧ tokens bucket' <= 5.
Proof.
  destruct (check_bucket_bounds regressed "tool1" "user1" 7 5 1
              (policy_at_set ∅ "tool1" 5 1)) as [(d & b & H1 & H2 & H3 & _) _].
  exists d, b. auto.
Defined.

(** ** A denied check *)

(** C3, as stated, fails: a denied check does mutate the bucket held by the
    engine.  With an empty bucket last refilled at time 0 and half a token
    per second, a check at time 1 is denied, and the engine's bucket now has
    the refilled token count and [last_refill = 1]; an allowed check of
    another user on the same engine then writes those values to the state
    document. *)
Lemma denied_check_mutates_bucket :
  outcome (check "tool1" "user1" 1 starved) = Denied
  ∧ state starved !! "tool1:user1" = Some (mkBucket 0 0)
  ∧ (∃ bucket', state (after (check "tool1" "user1" 1 starved)) !! "tool1:user1"
                = Some bucket'
                ∧ 0 < tokens bucket' ∧ 0 < last_refill bucket'
                ∧ outcome (check "tool1" "user2" 1
                             (after (check "tool1" "user1" 1 starved))) = Allowed
                ∧ ∃ doc, state_file (after (check "tool1" "user2" 1
                                       (after (check "tool1" "user1" 1 starved))))
                         = Some doc
                         ∧ doc !! "tool1:user1" = Some bucket')
  ∧ state (after (check "tool1" "user1" 1 starved)) ≠ state starved.
Proof.
  split; [vm_compute; reflexivity|]. split; [vm_compute; reflexivity|]. split.
  - exists (mkBucket (py_min (0 + (1 - 0) * (1#2)) 5) 1).
    split; [vm_compute; reflexivity|]. split; [vm_compute; reflexivity|].
    split; [vm_compute; reflexivity|]. split; [vm_compute; reflexivity|].
    eexists. split; [reflexivity|]. vm_compute; reflexivity.
  - intros H. apply (f_equal (λ m, last_refill <$> m !! "tool1:user1")) in H.
    vm_compute in H. discriminate H.
Qed.

(** C3, amended: a denied check writes neither document, so the durable
    state after it equals the durable state before it, and an engine loaded
    afresh from the documents is the same as before; the policies and every
    other bucket of the running engine are unchanged too.  (The checked
    bucket of the running engine is not covered: it keeps what the refill
    step computed.) *)
Theorem denied_check_not_persisted
    (self : RateLimiter) (tool user : string) (now : Q) :
  outcome (check tool user now self) = Denied →
  state_file (after (check tool user now self)) = state_file self
  ∧ config_file (after (check tool user now self)) = config_file self
  ∧ init (config_file (after (check tool user now self)))
         (state_file (after (check tool user now self)))
    = init (config_file self) (state_file self)
  ∧ config (after (check tool user now self)) = config self
  ∧ ∀ k, k ≠ _get_bucket_key tool user →
         state (after (check tool user now self)) !! k = state self !! k.
Proof.
  intros Hd.
  destruct (check_denied_frame self tool user now Hd) as (Hs & Hc & Hcf & Hk).
  rewrite Hs, Hcf. auto.
Qed.

Lemma denied_check_not_persisted_witness :
  state_file (after (check "tool1" "user1" 1 starved)) = state_file starved
  ∧ config_file (after (check "tool1" "user1" 1 starved)) = config_file starved
  ∧ init (config_file (after (check "tool1" "user1" 1 starved)))
         (state_file (after (check "tool1" "user1" 1 starved)))
    = init (config_file starved) (state_file starved)
  ∧ config (after (check "tool1" "user1" 1 starved)) = config starved
  ∧ ∀ k, k ≠ _get_bucket_key "tool1" "user1" →
         state (after (check "tool1" "user1" 1 starved)) !! k = state starved !! k.
Proof.
  apply (denied_check_not_persisted starved "tool1" "user1" 1).
  vm_compute. reflexivity.
Defined.


(** ** Unknown tools *)

(** C4: [check] fails with [UnknownTool] exactly when the policy mapping has
    no entry for the tool; the engine, and so every bucket, is then left as
    it was; [cmd_check] turns that failure into exit code 2 and a denial
    into exit code 1. *)
Theorem check_unknown_tool
    (self : RateLimiter) (tool user : string) (now : Q) :
  (outcome (check tool user now self) = UnknownTool ↔ config self !! tool = None)
  ∧ (outcome (check tool user now self) = UnknownTool →
     after (check tool user now self) = self
     ∧ cmd_check tool user now self = (Ok 2%Z, self))
  ∧ (outcome (cmd_check tool user now self) = Ok 2%Z
     ↔ outcome (check tool user now self) = UnknownTool)
  ∧ (outcome (cmd_check tool user now self) = Ok 1%Z
     ↔ outcome (check tool user now self) = Denied)
  ∧ (2 ≠ 1)%Z.
Proof.
  split; [apply check_raises_unknown_iff|]. split.
  - intros H. apply check_raises_unknown_iff in H.
    unfold cmd_check. by rewrite (check_unknown self tool user now H).
  - unfold cmd_check, outcome, UnknownTool, Denied.
    destruct (check tool user now self) as [[[]|[]] s]; simpl;
      repeat split; intros; simplify_eq; done.
Qed.

Lemma check_unknown_tool_witness :
  after (check "unknown" "user1" 0 (init (Some ∅) None)) = init (Some ∅) None
  ∧ cmd_check "unknown" "user1" 0 (init (Some ∅) None)
    = (Ok 2%Z, init (Some ∅) None).
Proof.
  apply (check_unknown_tool (init (Some ∅) None) "unknown" "user1" 0).
  vm_compute. reflexivity.
Defined.

(** ** The first check of a pair *)

(** C5: for a tool with policy [(c, r)], [c >= 1], and a pair without a
    bucket, the refill step creates the bucket with [c] tokens and
    [last_refill = now] and nothing more; [check] returns [Allowed], leaves
    [c - 1] tokens in the bucket and writes the state document, whatever the
    refill rate [r]. *)
Theorem check_fresh_pair
    (self : RateLimiter) (tool user : string) (now c r : Q) :
  policy_at (config self) tool c r →
  1 <= c →
  state self !! _get_bucket_key tool user = None →
  _refill_bucket tool user now self
  = (Ok tt, with_state self
              (<[_get_bucket_key tool user := mkBucket c now]> (state self)))
  ∧ check tool user now self
    = (Allowed, with_saved_state self
                  (<[_get_bucket_key tool user := mkBucket (c - 1) now]>
                     (state self))).
Proof.
  intros Hp Hc Hs. split; [exact (refill_fresh self tool user now c r Hp Hs)|].
  rewrite (check_policy self tool user now c r Hp), Hs. simpl.
  by rewrite (proj2 (Qgeb_true c 1) Hc).
Qed.

Lemma check_fresh_pair_witness :
  _refill_bucket "tool1" "user1" 100 (init (Some (cfg_tool1 5 0)) None)
  = (Ok tt, with_state (init (Some (cfg_tool1 5 0)) None)
              (<[_get_bucket_key "tool1" "user1" := mkBucket 5 100]>
                 (state (init (Some (cfg_tool1 5 0)) None))))
  ∧ check "tool1" "user1" 100 (init (Some (cfg_tool1 5 0)) None)
    = (Allowed, with_saved_state (init (Some (cfg_tool1 5 0)) None)
                  (<[_get_bucket_key "tool1" "user1" := mkBucket (5 - 1) 100]>
                     (state (init (Some (cfg_tool1 5 0)) None)))).
Proof.
  apply (check_fresh_pair (init (Some (cfg_tool1 5 0)) None) "tool1" "user1" 100 5 0).
  - apply policy_at_set.
  - vm_compute. discriminate.
  - reflexivity.
Defined.

(** ** Changing a limit *)

(** C6: [set_limit] stores the policy [(c, r)] for the tool in the mapping
    and in the policy document, and leaves every bucket and the state
    document as they were; the next [check] of that tool decides with the
    new [c] and [r]: a missing bucket starts with [c] tokens, an existing one
    is refilled at rate [r] and clamped to [c], whatever the policy was
    before. *)
Theorem set_limit_governs_next_check
    (self : RateLimiter) (tool : string) (c r : Q) :
  outcome (set_limit tool c r self) = Ok tt
  ∧ config (after (set_limit tool c r self))
    = <[tool := policy_of c r]> (config self)
  ∧ config_file (after (set_limit tool c r self))
    = Some (<[tool := policy_of c r]> (config self))
  ∧ state (after (set_limit tool c r self)) = state self
  ∧ state_file (after (set_limit tool c r self)) = state_file self
  ∧ policy_at (config (after (set_limit tool c r self))) tool c r
  ∧ ∀ user now,
      outcome (check tool user now (after (set_limit tool c r self)))
      = Ok (Qgeb (tokens (refilled c r now
                            (state self !! _get_bucket_key tool user))) 1).
Proof.
  repeat (split; [done|]). split; [apply policy_at_set|].
  intros user now.
  rewrite (check_policy (after (set_limit tool c r self)) tool user now c r
             (policy_at_set (config self) tool c r)).
  simpl. by destruct (Qgeb _ 1).
Qed.

(** ** Reset *)

(** C7, as stated, fails for a tool whose capacity is below 1:
    [set_limit("tool1", 0, 1)] is accepted, the check of a pair is denied,
    and after [reset] the check of that pair is denied again. *)
Lemma reset_does_not_restore_zero_capacity :
  policy_at (config zero_capacity) "tool1" 0 1
  ∧ outcome (check "tool1" "user1" 100 zero_capacity) = Denied
  ∧ outcome (check "tool1" "user1" 100
               (after (reset (after (check "tool1" "user1" 100 zero_capacity)))))
    = Denied.
Proof.
  split; [apply policy_at_set|]. split; vm_compute; reflexivity.
Qed.

(** C7, amended: [reset] deletes every bucket, writes the empty mapping to
    the state document and leaves the policies and the policy document
    unchanged; a check immediately after it of any pair whose tool has a
    policy with capacity at least 1 returns [Allowed]. *)
Theorem reset_restores
    (self : RateLimiter) (tool user : string) (now c r : Q) :
  policy_at (config self) tool c r →
  1 <= c →
  outcome (reset self) = Ok tt
  ∧ state (after (reset self)) = ∅
  ∧ state_file (after (reset self)) = Some ∅
  ∧ config (after (reset self)) = config self
  ∧ config_file (after (reset self)) = config_file self
  ∧ outcome (check tool user now (after (reset self))) = Allowed.
Proof.
  intros Hp Hc. repeat (split; [done|]).
  assert (Hp' : policy_at (config (after (reset self))) tool c r) by done.
  rewrite (check_policy _ tool user now c r Hp'). simpl.
  rewrite lookup_empty. simpl. by rewrite (proj2 (Qgeb_true c 1) Hc).
Qed.

Lemma reset_restores_witness :
  outcome (reset lowered) = Ok tt
  ∧ state (after (reset lowered)) = ∅
  ∧ state_file (after (reset lowered)) = Some ∅
  ∧ config (after (reset lowered)) = config lowered
  ∧ config_file (after (reset lowered)) = config_file lowered
  ∧ outcome (check "tool1" "user1" 100 (after (reset lowered))) = Allowed.
Proof.
  apply (reset_restores lowered "tool1" "user1" 100 2 1).
  - apply policy_at_set.
  - vm_compute. discriminate.
Defined.


(** ** Bucket keys *)

Lemma append_assoc3 (s t u : string) : (s +:+ t) +:+ u = s +:+ (t +:+ u).
Proof.
  induction s as [|a s IH]; [done|].
  change (String a ((s +:+ t) +:+ u) = String a (s +:+ (t +:+ u))).
  by rewrite IH.
Qed.

(** C9: the pairs [("a", "b:c")] and [("a:b", "c")] are distinct and have the
    same bucket key (as have [(t, u:v)] and [(t:u, v)] in general); with one
    token per bucket and no refill, an allowed check of the first pair
    debits the bucket the second pair reads, so the second pair, which would
    be allowed on its own, is denied. *)
Theorem bucket_key_collision :
  ("a", "b:c") ≠ ("a:b", "c")
  ∧ _get_bucket_key "a" "b:c" = _get_bucket_key "a:b" "c"
  ∧ (∀ t u v, _get_bucket_key t (u +:+ ":" +:+ v)
              = _get_bucket_key (t +:+ ":" +:+ u) v)
  ∧ outcome (check "a:b" "c" 100 overlapping) = Allowed
  ∧ outcome (check "a" "b:c" 100 overlapping) = Allowed
  ∧ state (after (check "a" "b:c" 100 overlapping)) !! _get_bucket_key "a:b" "c"
    = Some (mkBucket (1 - 1) 100)
  ∧ outcome (check "a:b" "c" 100 (after (check "a" "b:c" 100 overlapping)))
    = Denied.
Proof.
  split; [done|]. split; [done|]. split.
  - intros t u v. unfold _get_bucket_key. by rewrite !append_assoc3.
  - repeat split; vm_compute; reflexivity.
Qed.

(** ** Policies that are [null] or empty *)

(** C10, as stated, fails when the pair already has a bucket: with the policy
    document [{"tool1": null}] and a stored bucket of 3 tokens, [check]
    returns a decision ([Allowed]); the bucket is debited without any
    refill. *)
Lemma null_policy_check_decides :
  config nulled !! "tool1" = Some PNull
  ∧ outcome (check "tool1" "user1" 50 nulled) = Allowed
  ∧ state (after (check "tool1" "user1" 50 nulled)) !! "tool1:user1"
    = Some (mkBucket (3 - 1) 0).
Proof. repeat split; vm_compute; reflexivity. Qed.

(** C10, amended: when the policy mapping associates the tool with [null] or
    with an empty object, [check] does not fail with [UnknownTool] and the
    refill step returns without touching the engine; if the pair has no
    bucket yet, the bucket lookup raises [KeyError] and the engine is left as
    it was, and if the pair already has a bucket, [check] decides on the
    stored token count without refilling it.  When the policy of the tool is
    an object with [capacity] and [refill_rate], [check] returns a decision:
    the lookup does not fail. *)
Theorem check_falsy_policy
    (self : RateLimiter) (tool user : string) (now : Q) :
  (∀ p, config self !! tool = Some p → p = PNull ∨ p = PObj ∅ →
     outcome (check tool user now self) ≠ UnknownTool
     ∧ _refill_bucket tool user now self = (Ok tt, self)
     ∧ (state self !! _get_bucket_key tool user = None →
        check tool user now self = (Raise KeyError, self))
     ∧ (∀ b, state self !! _get_bucket_key tool user = Some b →
        outcome (check tool user now self) = Ok (Qgeb (tokens b) 1)))
  ∧ (∀ c r, policy_at (config self) tool c r →
     ∃ d, outcome (check tool user now self) = Ok d).
Proof.
  split.
  - intros p Hc Hp.
    assert (Hf : falsy_policy p) by (by destruct Hp as [-> | ->]).
    split.
    + intros H. apply check_raises_unknown_iff in H. congruence.
    + split; [exact (refill_falsy self tool user now p Hc Hf)|].
      rewrite (check_falsy self tool user now p Hc Hf). split.
      * by intros ->.
      * intros b ->. by destruct (Qgeb _ 1).
  - intros c r Hp. rewrite (check_policy self tool user now c r Hp). simpl.
    destruct (Qgeb _ 1); by eexists.
Qed.

Lemma check_falsy_policy_witness :
  check "tool1" "user2" 50 nulled = (Raise KeyError, nulled)
  ∧ ∃ d, outcome (check "tool1" "user1" 7 regressed) = Ok d.
Proof.
  split.
  - apply (proj1 (check_falsy_policy nulled "tool1" "user2" 50) PNull).
    + reflexivity.
    + by left.
    + reflexivity.
  - apply (proj2 (check_falsy_policy regressed "tool1" "user1" 7) 5 1).
    apply policy_at_set.
Defined.


(** ** Splitting keys *)

Lemma append_cons (a : ascii) (s t : string) : String a s +:+ t = String a (s +:+ t).
Proof. reflexivity. Qed.




Lemma split_colon_spec (key tool user : string) :
  split_colon key = Some (tool, user)
  ↔ no_colon tool = true ∧ key = _get_bucket_key tool user.
Proof.
  unfold _get_bucket_key. split.
  - revert tool. induction key as [|c rest IH]; intros tool; simpl; [done|].
    destruct (Ascii.eqb c ":") eqn:E.
    + apply Ascii.eqb_eq in E. subst c. intros [= <- <-]. done.
    + destruct (split_colon rest) as [[t u]|] eqn:Hs; [|done].
      intros [= <- <-]. destruct (IH t eq_refl) as [Hn ->].
      simpl. rewrite E, Hn. done.
  - intros [Hn ->]. induction tool as [|c t IH]; [done|].
    simpl in Hn. apply andb_true_iff in Hn as [Hc Hn].
    rewrite append_cons. simpl.
    destruct (Ascii.eqb c ":"); [done|]. by rewrite (IH Hn).
Qed.

Lemma attributed_spec (st : gmap string Bucket) (tool user : string) (b : Bucket) :
  attributed st tool user = Some b
  ↔ ∃ key, st !! key = Some b ∧ split_colon key = Some (tool, user).
Proof.
  unfold attributed. split.
  - destruct (no_colon tool) eqn:Hn; [|done]. intros H.
    exists (_get_bucket_key tool user). split; [done|].
    by apply split_colon_spec.
  - intros (key & Hk & Hs). apply split_colon_spec in Hs as [-> ->]. done.
Qed.

Lemma attributed_insert (st : gmap string Bucket) (key t u : string)
    (x : Bucket) (tool user : string) :
  split_colon key = Some (t, u) →
  attributed (<[key := x]> st) tool user
  = if decide (tool = t ∧ user = u) then Some x else attributed st tool user.
Proof.
  intros Hs. pose proof Hs as [Hn ->]%split_colon_spec.
  unfold attributed. case_decide as Hd.
  - destruct Hd as [-> ->]. by rewrite Hn, lookup_insert_eq.
  - destruct (no_colon tool) eqn:Hn'; [|done].
    rewrite lookup_insert_ne; [done|].
    intros Heq. apply Hd.
    assert (split_colon (_get_bucket_key t u) = Some (tool, user)) as Hs'.
    { rewrite Heq. by apply split_colon_spec. }
    rewrite Hs in Hs'. by simplify_eq.
Qed.

(** ** The two loops of [status] *)

Lemma entry_of_policy (cfg : gmap string Policy) (tool : string) (c r : Q) :
  policy_at cfg tool c r → cfg !! tool ≫= entry_of = Some (mkStatus c r ∅).
Proof.
  intros (f & -> & Hc & Hr). simpl. unfold entry_of. simpl. by rewrite Hc, Hr.
Qed.

Lemma status_tools_ok (cfg : gmap string Policy) :
  map_Forall (λ _ p, is_Some (entry_of p)) cfg →
  ∃ res, status_tools cfg = Ok res ∧ ∀ tool, res !! tool = cfg !! tool ≫= entry_of.
Proof.
  unfold status_tools.
  apply (map_fold_weak_ind
    (λ r (m : gmap string Policy),
       map_Forall (λ _ p, is_Some (entry_of p)) m →
       ∃ res, r = Ok res ∧ ∀ tool, res !! tool = m !! tool ≫= entry_of)).
  - intros _. exists ∅. split; [done|]. intros tool. by rewrite !lookup_empty.
  - intros i x m r Hi IH Hall.
    apply map_Forall_insert in Hall as [[e He] Hall]; [|done].
    destruct (IH Hall) as (res & -> & Hres).
    unfold entry_of in He.
    destruct (getitem (Some x) "capacity") as [c|] eqn:Hc; [|done].
    destruct (getitem (Some x) "refill_rate") as [rr|] eqn:Hr; [|done].
    simpl. eexists. split; [done|]. intros tool.
    destruct (decide (tool = i)) as [->|Hne].
    + rewrite !lookup_insert_eq. simpl. unfold entry_of. by rewrite Hc, Hr.
    + by rewrite !lookup_insert_ne.
Qed.

Lemma status_users_ok (st : gmap string Bucket) (res0 : gmap string ToolStatus) :
  keys_ok st →
  ∃ res, status_users st res0 = Ok res
    ∧ ∀ tool,
        match res0 !! tool with
        | None => res !! tool = None
        | Some e0 =>
            ∃ e, res !! tool = Some e
                 ∧ capacity e = capacity e0 ∧ refill_rate e = refill_rate e0
                 ∧ ∀ user, users e !! user
                           = match attributed st tool user with
                             | Some b => Some (tokens b)
                             | None => users e0 !! user
                             end
        end.
Proof.
  unfold status_users.
  apply (map_fold_weak_ind
    (λ r (m : gmap string Bucket),
       keys_ok m →
       ∃ res, r = Ok res
         ∧ ∀ tool,
             match res0 !! tool with
             | None => res !! tool = None
             | Some e0 =>
                 ∃ e, res !! tool = Some e
                      ∧ capacity e = capacity e0 ∧ refill_rate e = refill_rate e0
                      ∧ ∀ user, users e !! user
                                = match attributed m tool user with
                                  | Some b => Some (tokens b)
                                  | None => users e0 !! user
                                  end
             end)).
  - intros _. exists res0. split; [done|]. intros tool.
    destruct (res0 !! tool) as [e0|] eqn:E; [|done].
    exists e0. repeat split; try done. intros user.
    unfold attributed. rewrite lookup_empty. by destruct (no_colon tool).
  - intros i x m r Hi IH Hok.
    assert (Hok' : keys_ok m).
    { intros k b Hk. apply (Hok k b).
      rewrite lookup_insert_ne; [done|]. intros ->. congruence. }
    destruct (IH Hok') as (res & -> & Hres).
    destruct (Hok i x) as [[t u] Hs]; [by rewrite lookup_insert_eq|].
    simpl. rewrite Hs.
    destruct (res !! t) as [entry|] eqn:Ht.
    + eexists. split; [done|]. intros tool. specialize (Hres tool).
      destruct (res0 !! tool) as [e0|] eqn:E0.
      * destruct Hres as (e & He & Hc & Hr & Hu).
        destruct (decide (tool = t)) as [->|Hne].
        -- rewrite lookup_insert_eq. eexists. split; [done|]. simpl.
           assert (e = entry) as -> by congruence.
           split; [done|]. split; [done|]. intros user.
           rewrite (attributed_insert m i t u x t user Hs).
           destruct (decide (user = u)) as [->|Hu'].
           ++ rewrite lookup_insert_eq. by rewrite decide_True.
           ++ rewrite lookup_insert_ne by done.
              rewrite decide_False by (intros [_ ?]; done). apply Hu.
        -- rewrite lookup_insert_ne by done. exists e.
           split; [done|]. split; [done|]. split; [done|]. intros user.
           rewrite (attributed_insert m i t u x tool user Hs).
           rewrite decide_False by (intros [? _]; done). apply Hu.
      * destruct (decide (tool = t)) as [->|Hne]; [congruence|].
        by rewrite lookup_insert_ne.
    + exists res. split; [done|]. intros tool. specialize (Hres tool).
      destruct (res0 !! tool) as [e0|] eqn:E0; [|done].
      destruct Hres as (e & He & Hc & Hr & Hu).
      exists e. split; [done|]. split; [done|]. split; [done|]. intros user.
      rewrite (attributed_insert m i t u x tool user Hs).
      rewrite decide_False; [apply Hu|]. intros [-> _]. congruence.
Qed.

Lemma policies_ok_empty : policies_ok ∅.
Proof. intros tool p H. by rewrite lookup_empty in H. Qed.

Lemma policies_ok_insert (cfg : gmap string Policy) (tool : string) (c r : Q) :
  policies_ok cfg → policies_ok (<[tool := policy_of c r]> cfg).
Proof.
  intros Hok t p Hp. destruct (decide (t = tool)) as [->|Hne].
  - exists c, r. apply policy_at_set.
  - rewrite lookup_insert_ne in Hp by done.
    destruct (Hok t p Hp) as (c' & r' & f & Hf & Hc & Hr).
    exists c', r', f. by rewrite lookup_insert_ne.
Qed.

Lemma keys_ok_empty : keys_ok ∅.
Proof. intros k b H. by rewrite lookup_empty in H. Qed.

Lemma keys_ok_insert (st : gmap string Bucket) (tool user : string) (b : Bucket) :
  no_colon tool = true → keys_ok st →
  keys_ok (<[_get_bucket_key tool user := b]> st).
Proof.
  intros Hn Hok k x Hk. destruct (decide (k = _get_bucket_key tool user)) as [->|Hne].
  - exists (tool, user). by apply split_colon_spec.
  - rewrite lookup_insert_ne in Hk by done. by apply (Hok k x).
Qed.

(** ** The report of [status] *)

(** C8, as stated, fails on "last persisted": after the denied check of
    [denied_check_mutates_bucket] the state document still records 0 tokens
    for the pair, and [status] on that engine reports the refilled count. *)
Lemma status_reports_unpersisted_tokens :
  ∃ report e t doc b,
    outcome (status (after (check "tool1" "user1" 1 starved))) = Ok report
    ∧ report !! "tool1" = Some e
    ∧ users e !! "user1" = Some t
    ∧ state_file (after (check "tool1" "user1" 1 starved)) = Some doc
    ∧ doc !! "tool1:user1" = Some b
    ∧ tokens b < t.
Proof.
  eexists _, _, _, _, _.
  split; [vm_compute; reflexivity|].
  split; [vm_compute; reflexivity|].
  split; [vm_compute; reflexivity|].
  split; [vm_compute; reflexivity|].
  split; [vm_compute; reflexivity|].
  vm_compute. reflexivity.
Qed.

(** C8, amended: [status] leaves the engine (policies, buckets, documents) as
    it is and reads no clock.  When every policy is an object with both
    fields and every bucket key contains a colon, it returns a report that
    has an entry exactly for the tools of the policy mapping, with the
    capacity and refill rate of the policy, and whose per-user mapping holds
    the token counts of the engine's in-memory bucket mapping (not those of
    the state document): user [u] of tool [t] has count [x] exactly when some
    bucket whose key splits at its first colon into [(t, u)] holds [x]
    tokens. *)
Theorem status_report (self : RateLimiter) :
  after (status self) = self
  ∧ (policies_ok (config self) → keys_ok (state self) →
     ∃ report,
       outcome (status self) = Ok report
       ∧ (∀ tool, config self !! tool = None → report !! tool = None)
       ∧ ∀ tool c r, policy_at (config self) tool c r →
           ∃ e, report !! tool = Some e
                ∧ capacity e = c ∧ refill_rate e = r
                ∧ ∀ user x,
                    users e !! user = Some x
                    ↔ ∃ key b, state self !! key = Some b
                               ∧ split_colon key = Some (tool, user)
                               ∧ tokens b = x).
Proof.
  split; [done|]. intros Hpol Hkeys.
  destruct (status_tools_ok (config self)) as (res0 & H0 & Hres0).
  { intros tool p Hp. destruct (Hpol tool p Hp) as (c & r & Hcr).
    pose proof (entry_of_policy _ _ _ _ Hcr) as He.
    rewrite Hp in He. simpl in He. by rewrite He. }
  destruct (status_users_ok (state self) res0 Hkeys) as (res & H1 & Hres).
  exists res. split.
  { unfold status, outcome, mbind, M_bind, bind, get_self, lift. simpl.
    rewrite H0. simpl. exact H1. }
  split.
  - intros tool Hnone. specialize (Hres tool).
    rewrite Hres0, Hnone in Hres. exact Hres.
  - intros tool c r Hp. specialize (Hres tool).
    rewrite Hres0, (entry_of_policy _ _ _ _ Hp) in Hres.
    destruct Hres as (e & He & Hc & Hr & Hu).
    exists e. split; [done|]. split; [done|]. split; [done|].
    intros user x. rewrite Hu. simpl. rewrite lookup_empty. split.
    + destruct (attributed (state self) tool user) as [b|] eqn:Ha; [|done].
      intros [= <-]. apply attributed_spec in Ha as (key & Hk & Hs).
      by exists key, b.
    + intros (key & b & Hk & Hs & <-).
      assert (attributed (state self) tool user = Some b) as ->; [|done].
      apply attributed_spec. by exists key.
Qed.

Lemma status_report_witness :
  ∃ report,
    outcome (status regressed) = Ok report
    ∧ (∀ tool, config regressed !! tool = None → report !! tool = None)
    ∧ ∀ tool c r, policy_at (config regressed) tool c r →
        ∃ e, report !! tool = Some e
             ∧ capacity e = c ∧ refill_rate e = r
             ∧ ∀ user x,
                 users e !! user = Some x
                 ↔ ∃ key b, state regressed !! key = Some b
                            ∧ split_colon key = Some (tool, user)
                            ∧ tokens b = x.
Proof.
  apply (proj2 (status_report regressed)).
  - apply (policies_ok_insert ∅ "tool1" 5 1), policies_ok_empty.
  - apply (keys_ok_insert ∅ "tool1" "user1" (mkBucket 2 10)).
    + reflexivity.
    + apply keys_ok_empty.
Defined.


(** ** The scenarios of the specification *)

(** Capacity 1 without refill: the first check is allowed, an immediate
    second one is denied. *)
Example scenario_one_token :
  outcome (check "tool1" "user1" 100 (init (Some (cfg_tool1 1 0)) None)) = Allowed
  ∧ outcome (check "tool1" "user1" 100
               (after (check "tool1" "user1" 100 (init (Some (cfg_tool1 1 0)) None))))
    = Denied.
Proof. split; vm_compute; reflexivity. Qed.

(** Capacity 5 at one token per second: three immediate checks leave 2
    tokens; three seconds later the bucket is refilled to 5 and the check
    leaves 4. *)
Example scenario_refill :
  ∃ b2 b4,
    state (after (check "tool1" "user1" 100
            (after (check "tool1" "user1" 100
              (after (check "tool1" "user1" 100
                (init (Some (cfg_tool1 5 1)) None))))))) !! "tool1:user1" = Some b2
    ∧ tokens b2 == 2
    ∧ check "tool1" "user1" 103
        (mkLimiter (cfg_tool1 5 1) {[ "tool1:user1" := b2 ]} None None)
      = (Allowed, mkLimiter (cfg_tool1 5 1) {[ "tool1:user1" := b4 ]} None
                    (Some {[ "tool1:user1" := b4 ]}))
    ∧ tokens b4 == 4 ∧ last_refill b4 = 103.
Proof.
  eexists _, _. split; [vm_compute; reflexivity|].
  split; [vm_compute; reflexivity|].
  split; [vm_compute; reflexivity|].
  split; vm_compute; reflexivity.
Qed.


(** ** More on [check]: malformed policies, frames, independence *)

Lemma refill_malformed (self : RateLimiter) (tool user : string) (now : Q) (p : Policy) :
  config self !! tool = Some p → malformed_policy p →
  _refill_bucket tool user now self = (Raise KeyError, self).
Proof.
  intros Hc (f & -> & Hne & Hmiss).
  assert (Hsz : size f ≠ 0%nat) by (by intros E%map_size_empty_iff).
  unfold _refill_bucket, mbind, M_bind, bind, get_self, lift. simpl.
  rewrite Hc. simpl. destruct (size f) as [|n]; [done|]. simpl.
  destruct (f !! "capacity") as [c|] eqn:Hcap; [|done].
  destruct Hmiss as [|Hr]; [done|]. by rewrite Hr.
Qed.

Lemma check_malformed (self : RateLimiter) (tool user : string) (now : Q) (p : Policy) :
  config self !! tool = Some p → malformed_policy p →
  check tool user now self = (Raise KeyError, self).
Proof.
  intros Hc Hm.
  unfold check at 1. unfold mbind, M_bind, bind at 1, get_self. simpl.
  rewrite Hc. unfold bind at 1.
  by rewrite (refill_malformed self tool user now p Hc Hm).
Qed.

Lemma policy_classify (cfg : gmap string Policy) (tool : string) :
  cfg !! tool = None
  ∨ (∃ p, cfg !! tool = Some p ∧ falsy_policy p)
  ∨ (∃ p, cfg !! tool = Some p ∧ malformed_policy p)
  ∨ (∃ c r, policy_at cfg tool c r).
Proof.
  destruct (cfg !! tool) as [[|f]|] eqn:E; [right; left|..|by left].
  - by exists PNull.
  - right. destruct (decide (f = ∅)) as [->|Hne]; [left; by exists (PObj ∅)|].
    right. destruct (f !! "capacity") as [c|] eqn:Hc.
    + destruct (f !! "refill_rate") as [r|] eqn:Hr.
      * right. exists c, r, f. by rewrite E.
      * left. exists (PObj f). split; [done|]. exists f. auto.
    + left. exists (PObj f). split; [done|]. exists f. auto.
Qed.


Lemma check_frame_any (self : RateLimiter) (tool user : string) (now : Q) :
  config (after (check tool user now self)) = config self
  ∧ config_file (after (check tool user now self)) = config_file self
  ∧ ∀ k, k ≠ _get_bucket_key tool user →
         state (after (check tool user now self)) !! k = state self !! k.
Proof.
  destruct (policy_classify (config self) tool)
    as [Hn|[(p & Hp & Hf)|[(p & Hp & Hm)|(c & r & Hp)]]].
  - by rewrite (check_unknown self tool user now Hn).
  - rewrite (check_falsy self tool user now p Hp Hf).
    destruct (state self !! _); [|done].
    destruct (Qgeb _ 1); [|done]. unfold after; simpl.
    repeat split. intros k Hk. by rewrite lookup_insert_ne.
  - by rewrite (check_malformed self tool user now p Hp Hm).
  - rewrite (check_policy self tool user now c r Hp). simpl.
    destruct (Qgeb _ 1); unfold after; simpl;
      repeat split; intros k Hk; by rewrite lookup_insert_ne.
Qed.

Lemma check_raise_unchanged (self : RateLimiter) (tool user : string) (now : Q)
    (e : exn) :
  outcome (check tool user now self) = Raise e →
  after (check tool user now self) = self.
Proof.
  destruct (policy_classify (config self) tool)
    as [Hn|[(p & Hp & Hf)|[(p & Hp & Hm)|(c & r & Hp)]]].
  - by rewrite (check_unknown self tool user now Hn).
  - rewrite (check_falsy self tool user now p Hp Hf).
    destruct (state self !! _); [|done]. by destruct (Qgeb _ 1).
  - by rewrite (check_malformed self tool user now p Hp Hm).
  - rewrite (check_policy self tool user now c r Hp). simpl.
    by destruct (Qgeb _ 1).
Qed.

Lemma check_allowed_saved (self : RateLimiter) (tool user : string) (now : Q) :
  outcome (check tool user now self) = Ok true →
  state_file (after (check tool user now self))
  = Some (state (after (check tool user now self))).
Proof.
  destruct (policy_classify (config self) tool)
    as [Hn|[(p & Hp & Hf)|[(p & Hp & Hm)|(c & r & Hp)]]].
  - by rewrite (check_unknown self tool user now Hn).
  - rewrite (check_falsy self tool user now p Hp Hf).
    destruct (state self !! _); [|done]. by destruct (Qgeb _ 1).
  - by rewrite (check_malformed self tool user now p Hp Hm).
  - rewrite (check_policy self tool user now c r Hp). simpl.
    by destruct (Qgeb _ 1).
Qed.


Lemma bucket_key_splits (tool user : string) :
  is_Some (split_colon (_get_bucket_key tool user)).
Proof.
  unfold _get_bucket_key. induction tool as [|c t IH]; [by eexists|].
  rewrite append_cons. simpl. destruct (Ascii.eqb c ":"); [by eexists|].
  destruct IH as [[t' u'] ->]. by eexists.
Qed.

Lemma bucket_key_inj (t1 u1 t2 u2 : string) :
  no_colon t1 = true → no_colon t2 = true →
  _get_bucket_key t1 u1 = _get_bucket_key t2 u2 → t1 = t2 ∧ u1 = u2.
Proof.
  intros H1 H2 Heq.
  assert (split_colon (_get_bucket_key t1 u1) = Some (t1, u1)) as E1
    by (by apply split_colon_spec).
  assert (split_colon (_get_bucket_key t2 u2) = Some (t2, u2)) as E2
    by (by apply split_colon_spec).
  rewrite Heq, E2 in E1. by simplify_eq.
Qed.

(** ** Persistence *)

(** X1: an allowed check writes the whole bucket mapping of the engine to the
    state document, so an engine constructed afterwards from the documents
    holds exactly the buckets of the running engine. *)
Theorem allowed_check_round_trip
    (self : RateLimiter) (tool user : string) (now : Q) :
  outcome (check tool user now self) = Allowed →
  state_file (after (check tool user now self))
  = Some (state (after (check tool user now self)))
  ∧ state (init (config_file (after (check tool user now self)))
                (state_file (after (check tool user now self))))
    = state (after (check tool user now self)).
Proof.
  intros H. pose proof (check_allowed_saved self tool user now H) as Hs.
  split; [done|]. by rewrite Hs.
Qed.

Lemma allowed_check_round_trip_witness :
  state_file (after (check "tool1" "user2" 1 starved))
  = Some (state (after (check "tool1" "user2" 1 starved)))
  ∧ state (init (config_file (after (check "tool1" "user2" 1 starved)))
                (state_file (after (check "tool1" "user2" 1 starved))))
    = state (after (check "tool1" "user2" 1 starved)).
Proof.
  apply (allowed_check_round_trip starved "tool1" "user2" 1).
  vm_compute. reflexivity.
Defined.

(** X2: [set_limit] writes the whole policy mapping to the policy document:
    an engine constructed afterwards from the documents has the policies of
    the running engine, the tool has the policy just set, and the policy of
    every other tool is the one it had. *)
Theorem set_limit_round_trip
    (self : RateLimiter) (tool : string) (c r : Q) :
  config (init (config_file (after (set_limit tool c r self)))
               (state_file (after (set_limit tool c r self))))
  = config (after (set_limit tool c r self))
  ∧ config (after (set_limit tool c r self)) !! tool = Some (policy_of c r)
  ∧ getitem (config (after (set_limit tool c r self)) !! tool) "capacity" = Ok c
  ∧ getitem (config (after (set_limit tool c r self)) !! tool) "refill_rate" = Ok r
  ∧ ∀ other, other ≠ tool →
      config (after (set_limit tool c r self)) !! other = config self !! other.
Proof.
  split; [done|]. unfold after; simpl. rewrite lookup_insert_eq.
  split; [done|]. split; [done|]. split; [done|].
  intros other Hne. by rewrite lookup_insert_ne.
Qed.

(** X3: the last [set_limit] of a tool wins, a second one leaves nothing of
    the first; [set_limit]s of two different tools give the same engine in
    either order. *)
Theorem set_limit_compose
    (self : RateLimiter) (t1 t2 : string) (c1 r1 c2 r2 : Q) :
  after (set_limit t1 c2 r2 (after (set_limit t1 c1 r1 self)))
  = after (set_limit t1 c2 r2 self)
  ∧ (t1 ≠ t2 →
     after (set_limit t1 c1 r1 (after (set_limit t2 c2 r2 self)))
     = after (set_limit t2 c2 r2 (after (set_limit t1 c1 r1 self)))).
Proof.
  split.
  - unfold after; simpl. by rewrite insert_insert_eq.
  - intros Hne. unfold after; simpl. by rewrite (insert_insert_ne _ t1 t2).
Qed.

Lemma set_limit_compose_witness :
  after (set_limit "a" 1 0 (after (set_limit "b" 2 1 (init None None))))
  = after (set_limit "b" 2 1 (after (set_limit "a" 1 0 (init None None)))).
Proof.
  apply (proj2 (set_limit_compose (init None None) "a" "b" 1 0 2 1)).
  discriminate.
Defined.

(** ** Independent buckets *)



(** X5: splitting a bucket key at its first colon always succeeds, and it
    gives back the tool and the user the key was made of exactly when the
    tool name holds no colon; the keys of such tools determine the pair. *)
Theorem bucket_key_round_trip (tool user : string) :
  is_Some (split_colon (_get_bucket_key tool user))
  ∧ (split_colon (_get_bucket_key tool user) = Some (tool, user)
     ↔ no_colon tool = true)
  ∧ ∀ tool' user',
      no_colon tool = true → no_colon tool' = true →
      _get_bucket_key tool user = _get_bucket_key tool' user' →
      tool = tool' ∧ user = user'.
Proof.
  split; [apply bucket_key_splits|]. split.
  - split.
    + by intros [Hn _]%split_colon_spec.
    + intros Hn. by apply split_colon_spec.
  - intros tool' user'. apply bucket_key_inj.
Qed.

Lemma bucket_key_round_trip_witness :
  split_colon (_get_bucket_key "tool1" "user:1") = Some ("tool1", "user:1").
Proof.
  apply (proj2 (proj1 (proj2 (bucket_key_round_trip "tool1" "user:1")))).
  reflexivity.
Defined.

(** ** Policies without a field *)

(** X6: when the policy of the tool is a non-empty object that lacks
    [capacity] or [refill_rate], [check] raises [KeyError] before anything is
    mutated, [cmd_check] does not catch it, and [main], run on documents that
    hold such a policy, ends with that exception and leaves both documents as
    they were. *)
Theorem check_malformed_policy
    (self : RateLimiter) (tool user : string) (now : Q) (fields : gmap string Q) :
  config self !! tool = Some (PObj fields) →
  fields ≠ ∅ →
  fields !! "capacity" = None ∨ fields !! "refill_rate" = None →
  check tool user now self = (Raise KeyError, self)
  ∧ cmd_check tool user now self = (Raise KeyError, self)
  ∧ ∀ disk, _load_config (config_doc disk) = config self →
      main (CheckArgs tool user) now disk = (Raise KeyError, disk).
Proof.
  intros Hc Hne Hmiss.
  assert (Hm : malformed_policy (PObj fields)) by (by exists fields).
  pose proof (check_malformed self tool user now _ Hc Hm) as Hchk.
  split; [done|]. split.
  - unfold cmd_check. by rewrite Hchk.
  - intros [cdoc sdoc] Hload. simpl in Hload.
    unfold main. cbv zeta. cbn [config_doc state_doc]. unfold cmd_check.
    rewrite (check_malformed (init cdoc sdoc) tool user now (PObj fields)); [done| |done].
    simpl. by rewrite Hload.
Qed.

Lemma check_malformed_policy_witness :
  check "tool1" "user1" 0
    (init (Some {[ "tool1" := PObj {[ "capacity" := 5 ]} ]}) None)
  = (Raise KeyError, init (Some {[ "tool1" := PObj {[ "capacity" := 5 ]} ]}) None)
  ∧ cmd_check "tool1" "user1" 0
      (init (Some {[ "tool1" := PObj {[ "capacity" := 5 ]} ]}) None)
    = (Raise KeyError, init (Some {[ "tool1" := PObj {[ "capacity" := 5 ]} ]}) None)
  ∧ ∀ disk,
      _load_config (config_doc disk)
      = config (init (Some {[ "tool1" := PObj {[ "capacity" := 5 ]} ]}) None) →
      main (CheckArgs "tool1" "user1") 0 disk = (Raise KeyError, disk).
Proof.
  refine (check_malformed_policy
            (init (Some {[ "tool1" := PObj {[ "capacity" := 5 ]} ]}) None)
            "tool1" "user1" 0 {[ "capacity" := 5 ]} _ _ _).
  - reflexivity.
  - intros H. apply (f_equal (λ m : gmap string Q, m !! "capacity")) in H.
    vm_compute in H. discriminate H.
  - right. reflexivity.
Defined.

(** ** When [status] raises *)

Lemma entry_of_is_Some (p : Policy) :
  is_Some (entry_of p)
  ↔ ∃ f c r, p = PObj f ∧ f !! "capacity" = Some c ∧ f !! "refill_rate" = Some r.
Proof.
  unfold entry_of. split.
  - destruct p as [|f]; simpl; [by intros [? ?]|].
    destruct (f !! "capacity") as [c|] eqn:Hc; [|by intros [? ?]].
    destruct (f !! "refill_rate") as [r|] eqn:Hr; [|by intros [? ?]].
    intros _. by exists f, c, r.
  - intros (f & c & r & -> & Hc & Hr). simpl. rewrite Hc, Hr. by eexists.
Qed.

Lemma policies_ok_forall (cfg : gmap string Policy) :
  policies_ok cfg ↔ map_Forall (λ _ p, is_Some (entry_of p)) cfg.
Proof.
  split.
  - intros Hok tool p Hp. destruct (Hok tool p Hp) as (c & r & f & Hf & Hc & Hr).
    apply entry_of_is_Some. exists f, c, r. split; [congruence|done].
  - intros Hall tool p Hp.
    destruct (proj1 (entry_of_is_Some p) (Hall tool p Hp)) as (f & c & r & -> & Hc & Hr).
    by exists c, r, f.
Qed.




Lemma status_outcome_eq (self : RateLimiter) :
  outcome (status self)
  = match status_tools (config self) with
    | Ok res0 => status_users (state self) res0
    | Raise e => Raise e
    end.
Proof. done. Qed.



(** ** Documents the engine writes itself *)

Lemma check_keys_ok (self : RateLimiter) (tool user : string) (now : Q) :
  keys_ok (state self) → keys_ok (state (after (check tool user now self))).
Proof.
  intros Hok k b Hk.
  destruct (decide (k = _get_bucket_key tool user)) as [->|Hne].
  - apply bucket_key_splits.
  - destruct (check_frame_any self tool user now) as (_ & _ & Hs).
    rewrite (Hs k Hne) in Hk. by apply (Hok k b).
Qed.




(** ** [main] *)

Lemma main_check_eq (tool user : string) (now : Q) (disk : Disk) :
  main (CheckArgs tool user) now disk
  = (fst (cmd_check tool user now (init (config_doc disk) (state_doc disk))),
     mkDisk (config_file (snd (cmd_check tool user now
                                  (init (config_doc disk) (state_doc disk)))))
            (state_file (snd (cmd_check tool user now
                                 (init (config_doc disk) (state_doc disk)))))).
Proof. done. Qed.

Lemma cmd_check_eq (tool user : string) (now : Q) (self : RateLimiter) :
  snd (cmd_check tool user now self) = after (check tool user now self)
  ∧ fst (cmd_check tool user now self)
    = match outcome (check tool user now self) with
      | Ok true => Ok 0%Z
      | Ok false => Ok 1%Z
      | Raise RateLimitExceeded => Ok 2%Z
      | Raise e => Raise e
      end.
Proof.
  unfold cmd_check, after, outcome.
  by destruct (check tool user now self) as [[[]|[]] s].
Qed.

Lemma cmd_status_snd (self : RateLimiter) : snd (cmd_status self) = self.
Proof.
  unfold cmd_status, status, mbind, M_bind, bind, get_self, lift.
  simpl. destruct (status_tools (config self)) as [res0|e]; simpl; [|done].
  by destruct (status_users (state self) res0).
Qed.





(** X10: [main] changes the documents only when it runs [set-limit], [reset]
    or a [check] that ends with exit code 0: without a sub-command, for
    [status], and whenever a [check] ends with another exit code or with an
    exception, both documents are left exactly as they were. *)
Theorem main_read_only (args : Args) (now : Q) (disk : Disk) :
  args = NoCommand ∨ args = StatusArgs
  ∨ ((∃ tool user, args = CheckArgs tool user)
     ∧ fst (main args now disk) ≠ Ok 0%Z) →
  snd (main args now disk) = disk.
Proof.
  destruct disk as [cdoc sdoc].
  intros [->|[->|[(tool & user & ->) Hcode]]]; [done| |].
  - unfold main. cbv zeta. cbn [config_doc state_doc snd].
    by rewrite (cmd_status_snd (init cdoc sdoc)).
  - rewrite main_check_eq in *. cbn [config_doc state_doc fst snd] in *.
    destruct (cmd_check_eq tool user now (init cdoc sdoc)) as [Hs Hf].
    rewrite Hs. rewrite Hf in Hcode.
    set (self := init cdoc sdoc) in *.
    destruct (check_frame_any self tool user now) as (_ & Hcf & _).
    rewrite Hcf.
    destruct (outcome (check tool user now self)) as [[]|e] eqn:Ho; [done| |].
    + by destruct (check_denied_frame self tool user now Ho) as (-> & _).
    + by rewrite (check_raise_unchanged self tool user now e Ho).
Qed.

Lemma main_read_only_witness :
  snd (main (CheckArgs "unknown" "user1") 0 (mkDisk None None)) = mkDisk None None.
Proof.
  apply (main_read_only (CheckArgs "unknown" "user1") 0 (mkDisk None None)).
  right. right. split.
  - by exists "unknown", "user1".
  - vm_compute. discriminate.
Defined.

(** ** The rate limit *)


Lemma py_min_mono (a a' c : Q) : a <= a' → py_min a c <= py_min a' c.
Proof.
  intros H. destruct (py_min_cases a c) as [[? ->]|[? ->]];
    destruct (py_min_cases a' c) as [[? ->]|[? ->]]; lra.
Qed.





(** X12: for a refill rate that is not negative, refilling an existing
    bucket at a later clock reading never gives fewer tokens, never more
    than the capacity, and a check that is allowed at one clock reading is
    allowed at every later one. *)
Theorem refill_monotone
    (self : RateLimiter) (tool user : string) (c r now1 now2 : Q) (b : Bucket) :
  policy_at (config self) tool c r →
  state self !! _get_bucket_key tool user = Some b →
  0 <= r → now1 <= now2 →
  (∃ b1 b2,
     state (after (_refill_bucket tool user now1 self)) !! _get_bucket_key tool user
     = Some b1
     ∧ state (after (_refill_bucket tool user now2 self)) !! _get_bucket_key tool user
       = Some b2
     ∧ tokens b1 <= tokens b2 ∧ tokens b2 <= c)
  ∧ (outcome (check tool user now1 self) = Allowed →
     outcome (check tool user now2 self) = Allowed).
Proof.
  intros Hp Hs Hr Hn.
  assert (Hm : py_min (tokens b + (now1 - last_refill b) * r) c
               <= py_min (tokens b + (now2 - last_refill b) * r) c).
  { apply py_min_mono.
    assert (0 <= (now2 - now1) * r) by (apply Qmult_le_0_compat; lra). lra. }
  split.
  - rewrite !(refill_existing self tool user _ c r b Hp Hs).
    unfold after; simpl. rewrite !lookup_insert_eq.
    eexists _, _. split; [done|]. split; [done|]. simpl.
    split; [done|apply py_min_le_r].
  - rewrite !(check_policy self tool user _ c r Hp), Hs. simpl.
    destruct (Qgeb (py_min (tokens b + (now1 - last_refill b) * r) c) 1) eqn:E1;
      [|done].
    intros _. apply Qgeb_true in E1.
    assert (E2 : Qgeb (py_min (tokens b + (now2 - last_refill b) * r) c) 1 = true)
      by (apply Qgeb_true; lra).
    by rewrite E2.
Qed.

Lemma refill_monotone_witness :
  ∃ b1 b2,
    state (after (_refill_bucket "tool1" "user1" 2 starved))
      !! _get_bucket_key "tool1" "user1" = Some b1
    ∧ state (after (_refill_bucket "tool1" "user1" 3 starved))
        !! _get_bucket_key "tool1" "user1" = Some b2
    ∧ tokens b1 <= tokens b2 ∧ tokens b2 <= 5.
Proof.
  refine (proj1 (refill_monotone starved "tool1" "user1" 5 (1#2) 2 3 (mkBucket 0 0)
                   _ _ _ _)).
  - apply policy_at_set.
  - reflexivity.
  - lra.
  - lra.
Defined.

(** ** Commands across processes *)

(** X13: [main] run with [set-limit] and an integer capacity of at least 1,
    then run again with [check] for a pair that has no bucket in the state
    document, returns exit code 0 both times; afterwards the policy document
    holds the new policy on top of the old ones and the state document holds
    the bucket of the pair with one token less than the capacity. *)
Theorem main_set_limit_then_check
    (disk : Disk) (tool user : string) (cap : Z) (r now1 now2 : Q) :
  (1 <= cap)%Z →
  _load_state (state_doc disk) !! _get_bucket_key tool user = None →
  fst (main (SetLimitArgs tool cap r) now1 disk) = Ok 0%Z
  ∧ main (CheckArgs tool user) now2 (snd (main (SetLimitArgs tool cap r) now1 disk))
    = (Ok 0%Z,
       mkDisk (Some (<[tool := policy_of (inject_Z cap) r]>
                       (_load_config (config_doc disk))))
              (Some (<[_get_bucket_key tool user := mkBucket (inject_Z cap - 1) now2]>
                       (_load_state (state_doc disk))))).
Proof.
  intros Hcap Hs. destruct disk as [cdoc sdoc]. simpl in Hs.
  split; [done|].
  rewrite main_check_eq. unfold cmd_check.
  set (self := init (config_doc (snd (main (SetLimitArgs tool cap r) now1
                                        (mkDisk cdoc sdoc))))
                    (state_doc (snd (main (SetLimitArgs tool cap r) now1
                                       (mkDisk cdoc sdoc))))).
  assert (Hp : policy_at (config self) tool (inject_Z cap) r)
    by apply policy_at_set.
  assert (Hst : state self = _load_state sdoc) by done.
  rewrite (check_policy self tool user now2 (inject_Z cap) r Hp).
  rewrite Hst, Hs. simpl.
  assert (E : Qgeb (inject_Z cap) 1 = true).
  { apply Qgeb_true. change 1 with (inject_Z 1). by rewrite <- Zle_Qle. }
  by rewrite E.
Qed.

Lemma main_set_limit_then_check_witness :
  fst (main (SetLimitArgs "tool1" 5 1) 0 (mkDisk None None)) = Ok 0%Z
  ∧ main (CheckArgs "tool1" "user1") 100
      (snd (main (SetLimitArgs "tool1" 5 1) 0 (mkDisk None None)))
    = (Ok 0%Z,
       mkDisk (Some (<["tool1" := policy_of (inject_Z 5) 1]>
                       (_load_config (config_doc (mkDisk None None)))))
              (Some (<[_get_bucket_key "tool1" "user1" := mkBucket (inject_Z 5 - 1) 100]>
                       (_load_state (state_doc (mkDisk None None)))))).
Proof.
  apply (main_set_limit_then_check (mkDisk None None) "tool1" "user1" 5 1 0 100).
  - lia.
  - reflexivity.
Defined.

(** ** Reports after other operations *)

Lemma status_attributed (self : RateLimiter) :
  wf_engine self →
  ∃ report,
    outcome (status self) = Ok report
    ∧ ∀ tool c r, policy_at (config self) tool c r →
        ∃ e, report !! tool = Some e
             ∧ capacity e = c ∧ refill_rate e = r
             ∧ ∀ user, users e !! user
                       = tokens <$> attributed (state self) tool user.
Proof.
  intros [Hp Hk].
  destruct (status_tools_ok (config self)) as (res0 & H0 & Hres0);
    [by apply policies_ok_forall|].
  destruct (status_users_ok (state self) res0 Hk) as (res & H1 & Hres).
  exists res. split; [rewrite status_outcome_eq; by rewrite H0|].
  intros tool c r Hpol. specialize (Hres tool).
  rewrite Hres0, (entry_of_policy _ _ _ _ Hpol) in Hres.
  destruct Hres as (e & He & Hc & Hr & Hu).
  exists e. split; [done|]. split; [done|]. split; [done|].
  intros user. rewrite Hu. simpl. rewrite lookup_empty.
  by destruct (attributed (state self) tool user).
Qed.

(** X14: on an engine with well formed policies, the report of [status]
    right after [reset] lists every tool of the policy mapping with its
    capacity and refill rate and an empty per-user mapping, whatever buckets
    there were before. *)
Theorem status_after_reset (self : RateLimiter) (tool : string) (c r : Q) :
  policies_ok (config self) →
  policy_at (config self) tool c r →
  ∃ report,
    outcome (status (after (reset self))) = Ok report
    ∧ report !! tool = Some (mkStatus c r ∅).
Proof.
  intros Hok Hp.
  destruct (status_attributed (after (reset self))) as (report & Hr & Hrep).
  { split; [done|apply keys_ok_empty]. }
  exists report. split; [done|].
  destruct (Hrep tool c r Hp) as ([c' r' us] & He & Hc & Hrr & Hu).
  simpl in *. subst. rewrite He. do 2 f_equal.
  apply map_eq. intros user. rewrite Hu, lookup_empty.
  unfold attributed. simpl. rewrite lookup_empty. by destruct (no_colon tool).
Qed.

Lemma status_after_reset_witness :
  ∃ report,
    outcome (status (after (reset lowered))) = Ok report
    ∧ report !! "tool1" = Some (mkStatus 2 1 ∅).
Proof.
  apply (status_after_reset lowered "tool1" 2 1).
  - apply (policies_ok_insert _ "tool1" 2 1).
    apply (policies_ok_insert ∅ "tool1" 5 1), policies_ok_empty.
  - apply policy_at_set.
Defined.

(** X15: on an engine with well formed policies and keys, the report of
    [status] right after a check of [(tool, user)] under a policy [(c, r)]
    has an entry for the tool with that capacity and rate; when the tool
    name holds no colon, the entry lists the user with the token count the
    check left in the bucket, and when the tool name holds a colon the entry
    lists no user at all. *)
Theorem status_after_check
    (self : RateLimiter) (tool user : string) (now c r : Q) :
  wf_engine self →
  policy_at (config self) tool c r →
  ∃ report e b,
    outcome (status (after (check tool user now self))) = Ok report
    ∧ report !! tool = Some e
    ∧ capacity e = c ∧ refill_rate e = r
    ∧ state (after (check tool user now self)) !! _get_bucket_key tool user = Some b
    ∧ (no_colon tool = true → users e !! user = Some (tokens b))
    ∧ (no_colon tool = false → users e = ∅).
Proof.
  intros [Hpk Hk] Hp.
  destruct (check_frame_any self tool user now) as (Hcfg & _ & _).
  destruct (status_attributed (after (check tool user now self)))
    as (report & Hr & Hrep).
  { split; [by rewrite Hcfg|by apply check_keys_ok]. }
  rewrite <- Hcfg in Hp.
  destruct (Hrep tool c r Hp) as (e & He & Hc & Hrr & Hu).
  assert (∃ b, state (after (check tool user now self)) !! _get_bucket_key tool user
               = Some b) as [b Hb].
  { rewrite Hcfg in Hp. rewrite (check_policy self tool user now c r Hp). simpl.
    destruct (Qgeb _ 1); unfold after; simpl; rewrite lookup_insert_eq; by eexists. }
  exists report, e, b. repeat (split; [done|]). split.
  - intros Hn. rewrite Hu. unfold attributed. by rewrite Hn, Hb.
  - intros Hn. apply map_eq. intros u. rewrite Hu, lookup_empty.
    unfold attributed. by rewrite Hn.
Qed.

Lemma status_after_check_witness :
  ∃ report e b,
    outcome (status (after (check "tool1" "user1" 7 regressed))) = Ok report
    ∧ report !! "tool1" = Some e
    ∧ capacity e = 5 ∧ refill_rate e = 1
    ∧ state (after (check "tool1" "user1" 7 regressed)) !! _get_bucket_key "tool1" "user1"
      = Some b
    ∧ (no_colon "tool1" = true → users e !! "user1" = Some (tokens b))
    ∧ (no_colon "tool1" = false → users e = ∅).
Proof.
  apply (status_after_check regressed "tool1" "user1" 7 5 1).
  - split.
    + apply (policies_ok_insert ∅ "tool1" 5 1), policies_ok_empty.
    + apply (keys_ok_insert ∅ "tool1" "user1" (mkBucket 2 10)); [reflexivity|].
      apply keys_ok_empty.
  - apply policy_at_set.
Defined.

(** ** Buckets that are never refilled *)




